(** * Numerical quadrature of f(x) = (x+3)/(x^2+4): fixed formulas, the
      derivative-bound planner and the adaptive Runge driver

    Shallow embedding of [comp_math/lab4/main.cpp].

    - C++ [double] is IEEE-754 binary64 with round-to-nearest-even: it is
      modelled by Rocq's primitive [float], whose operations are exactly
      these, so every definition below evaluates on concrete inputs.
    - C++ [int] is a 32-bit two's complement integer, modelled as [Z] with
      the wrap-around written out ([CInt.wrap]).
    - [std::pow] comes from the C library and is a parameter of the
      definitions that call it. *)

From Stdlib Require Import ZArith Lia List Bool Uint63 QArith Qround.
From Stdlib Require Import Floats.
Import ListNotations.

(* Decimal literals such as 0.0001 denote the nearest double, as in C++. *)
Set Warnings "-inexact-float".

Local Open Scope Z_scope.

(** ** The C++ [int] type *)

Module CInt.

Definition INT_MIN : Z := -2147483648.
Definition INT_MAX : Z := 2147483647.

Definition in_range (z : Z) : Prop := INT_MIN <= z <= INT_MAX.

(** Reduction of a mathematical result to the 32-bit signed range. *)
Definition wrap (z : Z) : Z := (z + 2147483648) mod 4294967296 - 2147483648.

Definition add (x y : Z) : Z := wrap (x + y).
Definition mul (x y : Z) : Z := wrap (x * y).

(** [x % y] truncates toward zero, as [Z.rem] does. *)
Definition rem (x y : Z) : Z := Z.rem x y.

End CInt.

(** ** Conversions between [int] and [double] *)

(** Implicit conversion [int -> double]; exact on the whole [int] range. *)
Definition double_of_int (n : Z) : float :=
  if n <? 0 then PrimFloat.opp (of_uint63 (Uint63.of_Z (- n)))
  else of_uint63 (Uint63.of_Z n).

(** The exact rational value of a finite double. *)
Definition SF2Q (x : spec_float) : option Q :=
  match x with
  | S754_zero _ => Some 0%Q
  | S754_finite s m e =>
      let v := if s then Z.neg m else Z.pos m in
      Some (if 0 <=? e then inject_Z (v * 2 ^ e)
            else Qmake v (Z.to_pos (2 ^ (- e))))
  | _ => None
  end.

Definition double_value (x : float) : option Q := SF2Q (Prim2SF x).

(** [static_cast<int>(std::ceil(x))].  [std::ceil] yields the least
    integer-valued double not below [x]; the conversion to [int] is that
    integer when it fits and is undefined otherwise (as it is for an
    infinity or a NaN), which is [None] here. *)
Definition ceil_SF (x : spec_float) : option Z :=
  match x with
  | S754_zero _ => Some 0
  | S754_finite s m e =>
      let v := if s then Z.neg m else Z.pos m in
      Some (if 0 <=? e then v * 2 ^ e else - ((- v) / 2 ^ (- e)))
  | _ => None
  end.

Definition static_cast_int_ceil (x : float) : option Z :=
  match ceil_SF (Prim2SF x) with
  | Some c => if (CInt.INT_MIN <=? c) && (c <=? CInt.INT_MAX) then Some c else None
  | None => None
  end.

(** ** The integrand *)

Definition func (x : float) : float := ((x + 3) / (x * x + 4))%float.

(** ** Counted loops

    [for (int i = i0; i < n; ++i) sum = body(i, sum);] with the loop test
    kept; [fuel] bounds the number of tests and [for_loop] is always called
    with exactly the number of iterations it makes, [Z.to_nat (n - i0)]. *)
Fixpoint for_loop (fuel : nat) (i n : Z) (body : Z -> float -> float)
         (sum : float) : float :=
  match fuel with
  | O => sum
  | S fuel' =>
      if i <? n then for_loop fuel' (i + 1) n body (body i sum) else sum
  end.

Definition for_range (i0 n : Z) (body : Z -> float -> float) (sum : float) : float :=
  for_loop (Z.to_nat (n - i0)) i0 n body sum.

(** ** The three fixed formulas *)

Definition central_rectangles (a b : float) (n : Z) : float :=
  if n <=? 0 then 0%float
  else
    let h := ((b - a) / double_of_int n)%float in
    let sum := 0%float in
    let sum :=
      for_range 0 n
        (fun i sum => (sum + func (a + (double_of_int i + 0.5) * h))%float) sum in
    (h * sum)%float.

Definition trapezoidal_rule (a b : float) (n : Z) : float :=
  if n <=? 0 then 0%float
  else
    let h := ((b - a) / double_of_int n)%float in
    let sum := ((func a + func b) / 2)%float in
    let sum :=
      for_range 1 n
        (fun i sum => (sum + func (a + double_of_int i * h))%float) sum in
    (h * sum)%float.

Definition simpsons_rule (a b : float) (n : Z) : float :=
  if n <=? 0 then 0%float
  else
    let n := if negb (CInt.rem n 2 =? 0) then CInt.add n 1 else n in
    let h := ((b - a) / double_of_int n)%float in
    let sum := (func a + func b)%float in
    let sum :=
      for_range 1 n
        (fun i sum =>
           if CInt.rem i 2 =? 1
           then (sum + 4 * func (a + double_of_int i * h))%float
           else (sum + 2 * func (a + double_of_int i * h))%float) sum in
    (h / 3 * sum)%float.


(** ** The adaptive driver [integrate_with_runge] *)

Module Runge.

(** What a run does besides computing: calls of the integrator and the
    two warnings written to [std::cerr]. *)
Inductive event : Type :=
| Call (n : Z)
| WarnCeiling (n : Z)
| WarnNotConverged (current_iteration : Z) (epsilon last_estimate : float).

(** The integrator's arguments [n], in call order. *)
Fixpoint calls (tr : list event) : list Z :=
  match tr with
  | [] => []
  | Call n :: tr' => n :: calls tr'
  | _ :: tr' => calls tr'
  end.

(** The locals that are live at the top of the [do] body.  [I_2h] is
    declared without a value and assigned first thing in the body. *)
Record head : Type := mkHead {
  st_n : Z;
  st_I_h : float;
  st_current_iteration : Z;
  st_trace : list event
}.

(** The returned double together with the out-parameter [n_final]. *)
Record result : Type := mkResult {
  value : float;
  n_final : Z;
  events : list event
}.

(** How one execution of the [do] body ends. *)
Inductive outcome : Type :=
| Return (r : result)
| Break (s : head) (I_2h : float)
| Fallthrough (s : head) (I_2h : float).

Definition max_iterations : Z := 2000.

Section Driver.

Variable pow : float -> float -> float.
Variable integrator : float -> float -> Z -> float.
Variables a b epsilon : float.
Variable p : Z.

Definition initial_n : Z :=
  let n := 2 in
  if p =? 4 then
    let n := if CInt.rem n 2 =? 0 then n else CInt.add n 1 in
    if n =? 0 then 2 else n
  else n.

Definition min_n_for_reliable_runge : Z := if p =? 4 then 8 else 1.

Definition loop_body (s : head) : outcome :=
  let I_2h := st_I_h s in
  let n := CInt.mul (st_n s) 2 in
  let I_h := integrator a b n in
  let trace := st_trace s ++ [Call n] in
  let error_estimate_component := (I_h - I_2h)%float in
  let runge_denominator := (pow 2 (double_of_int p) - 1)%float in
  let current_error_estimate :=
    (PrimFloat.abs error_estimate_component / runge_denominator)%float in
  let stopping_condition_met := (current_error_estimate <? epsilon)%float in
  let stopping_condition_met :=
    if (4 <=? p) && (n <? min_n_for_reliable_runge) && stopping_condition_met
       && (st_current_iteration s <? max_iterations - 1)
    then false else stopping_condition_met in
  if stopping_condition_met then
    Return {| value := (I_h + error_estimate_component / runge_denominator)%float;
              n_final := n;
              events := trace |}
  else
    let current_iteration := st_current_iteration s + 1 in
    if 4000000 <? n then
      Break (mkHead n I_h current_iteration (trace ++ [WarnCeiling n])) I_2h
    else
      Fallthrough (mkHead n I_h current_iteration trace) I_2h.

(** The code after the loop (lines 300-309). *)
Definition after_loop (s : head) (I_2h : float) : result :=
  let I_h := st_I_h s in
  {| value := (I_h + (I_h - I_2h) / (pow 2 (double_of_int p) - 1))%float;
     n_final := st_n s;
     events :=
       st_trace s ++
       [WarnNotConverged (st_current_iteration s) epsilon
          (PrimFloat.abs (I_h - I_2h) / (pow 2 (double_of_int p) - 1))%float] |}.

(** [do { body } while (current_iteration < max_iterations);] then the
    code after the loop.  [None] is an exhausted [fuel], not a behaviour
    of the program. *)
Fixpoint do_while (fuel : nat) (s : head) : option result :=
  match fuel with
  | O => None
  | S fuel' =>
      match loop_body s with
      | Return r => Some r
      | Break s' I_2h => Some (after_loop s' I_2h)
      | Fallthrough s' I_2h =>
          if st_current_iteration s' <? max_iterations
          then do_while fuel' s'
          else Some (after_loop s' I_2h)
      end
  end.

Definition initial_head : head :=
  let n := initial_n in
  let I_h := integrator a b n in
  mkHead n I_h 0 [Call n].

Definition integrate_with_runge : option result :=
  do_while (Z.to_nat max_iterations) initial_head.

(** The locals at the top of the body once it has been executed [k]
    times without leaving the loop; [None] when the loop was left
    earlier. *)
Fixpoint head_after (k : nat) : option head :=
  match k with
  | O => Some initial_head
  | S k' =>
      match head_after k' with
      | Some s =>
          match loop_body s with
          | Fallthrough s' _ =>
              if st_current_iteration s' <? max_iterations then Some s' else None
          | _ => None
          end
      | None => None
      end
  end.

(** The subdivision count, the integrator's value, Runge's estimate and
    Richardson's refinement at the [k]-th doubling. *)
Definition n_at (k : nat) : Z := 2 ^ (Z.of_nat k + 1).
Definition I_at (k : nat) : float := integrator a b (n_at k).
Definition runge_estimate (k : nat) : float :=
  (PrimFloat.abs (I_at k - I_at (Nat.pred k)) / (pow 2 (double_of_int p) - 1))%float.
Definition richardson (k : nat) : float :=
  (I_at k + (I_at k - I_at (Nat.pred k)) / (pow 2 (double_of_int p) - 1))%float.

(** The decision taken at the [j]-th doubling: the estimate is below
    [epsilon] and the reliability guard of line 278 does not veto it. *)
Definition stops_at (j : nat) : bool :=
  let stopping_condition_met := (runge_estimate j <? epsilon)%float in
  if (4 <=? p) && (n_at j <? min_n_for_reliable_runge) && stopping_condition_met
     && (Z.of_nat (Nat.pred j) <? max_iterations - 1)
  then false else stopping_condition_met.

(** The stopping rule in the words of the specification. *)
Definition stopping_rule (j : nat) : bool :=
  (runge_estimate j <? epsilon)%float && ((p <? 4) || (8 <=? n_at j)).

End Driver.

(** The counts [2; 4; ...; 2^k]. *)
Definition doublings (k : nat) : list Z := map n_at (seq 0 k).

(** The number of executions of the loop body in a run: every execution
    calls the integrator once, after the one call that precedes the loop. *)
Definition iterations (r : result) : nat := (length (calls (events r)) - 1)%nat.

(** The loop invariant: the locals at the top of the body after [k]
    executions of it, none of which took the count above the ceiling. *)
Definition at_head (integrator : float -> float -> Z -> float) (a b : float)
           (k : nat) (s : head) : Prop :=
  s = mkHead (n_at k) (I_at integrator a b k) (Z.of_nat k) (map Call (doublings (S k)))
  /\ n_at k <= 4000000.

End Runge.

(** A reference [pow] for evaluating runs: repeated multiplication for a
    small non-negative integer exponent, which is exact (and so agrees with
    [std::pow]) for the base 2 the program uses; NaN elsewhere. *)
Fixpoint pow_nat (x : float) (k : nat) : float :=
  match k with
  | O => 1%float
  | S k' => (x * pow_nat x k')%float
  end.

Definition pow_ref (x y : float) : float :=
  match static_cast_int_ceil y with
  | Some k =>
      if (0 <=? k) && (k <=? 64) && (double_of_int k =? y)%float
      then pow_nat x (Z.to_nat k)
      else nan
  | None => nan
  end.

(** An integrator whose values never settle: it returns its count. *)
Definition restless (_ _ : float) (n : Z) : float := double_of_int n.

(** ** The derivative-bound planner (inlined in [main], lines 361-362 and
    372-373) *)

Definition M2_val : float := 0.43156%float.

Section Planner.

Variable pow : float -> float -> float.

(** [static_cast<int>(std::ceil(std::sqrt(std::pow(b - a, 3) * M2 / (k * epsilon))))]
    followed by [if (n == 0) n = 1;]. *)
Definition n_m2 (k a b M2 epsilon : float) : option Z :=
  match static_cast_int_ceil
          (PrimFloat.sqrt (pow (b - a) 3 * M2 / (k * epsilon))%float) with
  | Some n => Some (if n =? 0 then 1 else n)
  | None => None
  end.

Definition n_rect_m2 (a b M2 epsilon : float) : option Z := n_m2 24 a b M2 epsilon.
Definition n_trap_m2 (a b M2 epsilon : float) : option Z := n_m2 12 a b M2 epsilon.

End Planner.

(** ** The formulas in the words of the specification *)

(** The interior nodes [1 .. n-1]. *)
Definition interior (n : Z) : list Z := map Z.of_nat (seq 1 (Z.to_nat (n - 1))).

(** The fixed integrand [f(x) = (x + 3) / (x^2 + 4)]. *)
Definition f (x : float) : float := ((x + 3) / (x * x + 4))%float.

(** [h * ((f(a) + f(b)) / 2 + sum_{i=1}^{n-1} f(a + i h))] with
    [h = (b - a) / n]; the terms of the sum are added in index order. *)
Definition trapezoid_formula (a b : float) (n : Z) : float :=
  let h := ((b - a) / double_of_int n)%float in
  (h * fold_left (fun acc i => acc + f (a + double_of_int i * h))
         (interior n) ((f a + f b) / 2))%float.

(** [ceil (sqrt q)] for an exact rational [q]. *)
Definition ceil_sqrt (q : Q) : Z :=
  let c := Qceiling q in
  if c <=? 0 then 0
  else let r := Z.sqrt c in if r * r =? c then r else r + 1.

(** [n = ceil (sqrt (L^3 M2 / (k eps)))] with a floor of 1, in exact
    arithmetic. *)
Definition planner_formula (L M2 k eps : Q) : Z :=
  Z.max 1 (ceil_sqrt (L * L * L * M2 / (k * eps))%Q).

(** ** The rest of the program: [func_dd] and [main] *)

(** The closed form of the second derivative, which nothing calls. *)
Definition func_dd (x : float) : float :=
  let num := (2 * (x * x * x + 9 * x * x - 12 * x - 12))%float in
  let den_base := (x * x + 4)%float in
  (num / (den_base * den_base * den_base))%float.

Definition M_PI : float := 3.14159265358979323846%float.

(** What [main] computes and decides; the layout of the text it prints is
    left out.  [cout_warnings] lists the methods whose error is reported
    above [epsilon] (lines 426-445), [cerr] the driver's own warnings. *)
Inductive method : Type :=
| CentralRectanglesM2
| TrapezoidsM2
| TrapezoidsRunge
| SimpsonRunge.

Record report : Type := mkReport {
  exact_value : float;
  rep_n_rect_m2 : Z;
  h_rect_m2 : float;
  res_central_rect_m2 : float;
  rep_n_trap_m2 : Z;
  h_trap_m2 : float;
  res_trap_m2 : float;
  n_trap_runge_final : Z;
  res_trap_runge : float;
  n_simpson_runge_final : Z;
  res_simpson_runge : float;
  cout_warnings : list method;
  cerr : list Runge.event;
  all_accurate_flag : bool
}.

Section Main.

(** [std::pow] and [std::log] of the C library. *)
Variable pow : float -> float -> float.
Variable log : float -> float.

(** One of the four checks [if (std::abs(res - exact_value) > epsilon)]. *)
Definition check_accuracy (m : method) (res exact_value epsilon : float)
           (st : list method * bool) : list method * bool :=
  if (epsilon <? PrimFloat.abs (res - exact_value))%float
  then (fst st ++ [m], false)
  else st.

(** [None] stands for the undefined conversions of the planner; the driver
    itself always returns. *)
Definition main : option report :=
  let a := 0%float in
  let b := 2%float in
  let epsilon := 0.0001%float in
  let exact_value := (0.5 * log 2 + 3 * M_PI / 8)%float in
  match n_rect_m2 pow a b M2_val epsilon with
  | None => None
  | Some n_rect =>
  let res_central := central_rectangles a b n_rect in
  match n_trap_m2 pow a b M2_val epsilon with
  | None => None
  | Some n_trap =>
  let res_trap := trapezoidal_rule a b n_trap in
  match Runge.integrate_with_runge pow trapezoidal_rule a b epsilon 2 with
  | None => None
  | Some trap_runge =>
  match Runge.integrate_with_runge pow simpsons_rule a b epsilon 4 with
  | None => None
  | Some simpson_runge =>
  let st := ([], true) in
  let st := check_accuracy CentralRectanglesM2 res_central exact_value epsilon st in
  let st := check_accuracy TrapezoidsM2 res_trap exact_value epsilon st in
  let st := check_accuracy TrapezoidsRunge (Runge.value trap_runge) exact_value epsilon st in
  let st := check_accuracy SimpsonRunge (Runge.value simpson_runge) exact_value epsilon st in
  Some {| exact_value := exact_value;
          rep_n_rect_m2 := n_rect;
          h_rect_m2 := ((b - a) / double_of_int n_rect)%float;
          res_central_rect_m2 := res_central;
          rep_n_trap_m2 := n_trap;
          h_trap_m2 := ((b - a) / double_of_int n_trap)%float;
          res_trap_m2 := res_trap;
          n_trap_runge_final := Runge.n_final trap_runge;
          res_trap_runge := Runge.value trap_runge;
          n_simpson_runge_final := Runge.n_final simpson_runge;
          res_simpson_runge := Runge.value simpson_runge;
          cout_warnings := fst st;
          cerr := filter (fun e => match e with Runge.Call _ => false | _ => true end)
                    (Runge.events trap_runge ++ Runge.events simpson_runge);
          all_accurate_flag := snd st |}
  end end end end.

End Main.

(** The double nearest to [ln 2], which is what [std::log(2.0)] returns. *)
Definition ln2 : float := 0x1.62e42fefa39efp-1%float.

(** ** The loops of the other two formulas, as sums over their nodes *)

(** The indices [0 .. n-1] of the midpoints. *)
Definition cells (n : Z) : list Z := map Z.of_nat (seq 0 (Z.to_nat n)).

(** [h * sum_{i=0}^{n-1} func(a + (i + 0.5) h)], the sum starting from
    [0.0] and taken in index order. *)
Definition midpoint_sum (a b : float) (n : Z) : float :=
  let h := ((b - a) / double_of_int n)%float in
  (h * fold_left (fun acc i => acc + func (a + (double_of_int i + 0.5) * h))
         (cells n) 0)%float.

(** The weights 4, 2, 4, ... of the interior nodes. *)
Definition simpson_weight (i : Z) : float := if Z.odd i then 4%float else 2%float.

(** [(h / 3) * (func(a) + func(b) + sum_{i=1}^{m-1} w_i func(a + i h))] with
    [h = (b - a) / m], the weighted terms added in index order. *)
Definition simpson_sum (a b : float) (m : Z) : float :=
  let h := ((b - a) / double_of_int m)%float in
  (h / 3 * fold_left (fun acc i => acc + simpson_weight i * func (a + double_of_int i * h))
             (interior m) (func a + func b))%float.

(** * Properties *)

(** ** Machine integers and counted loops *)

Lemma wrap_in_range z : CInt.in_range z -> CInt.wrap z = z.
Proof.
  unfold CInt.in_range, CInt.INT_MIN, CInt.INT_MAX, CInt.wrap. intros Hz.
  rewrite Z.mod_small; lia.
Qed.

Lemma rem_2_odd n : 0 <= n -> CInt.rem n 2 = if Z.odd n then 1 else 0.
Proof.
  intros Hn. unfold CInt.rem.
  rewrite Z.rem_mod_nonneg by lia. apply Zmod_odd.
Qed.

Example double_of_int_values :
  double_of_int 0 = 0%float /\ double_of_int 64 = 64%float
  /\ double_of_int (-3) = (-3)%float
  /\ double_of_int CInt.INT_MIN = (-2147483648)%float.
Proof. vm_compute. repeat split. Qed.

Example static_cast_int_ceil_values :
  static_cast_int_ceil 37.93 = Some 38
  /\ static_cast_int_ceil 38 = Some 38
  /\ static_cast_int_ceil (-0.5) = Some 0
  /\ static_cast_int_ceil (-1.5) = Some (-1)
  /\ static_cast_int_ceil 0 = Some 0
  /\ static_cast_int_ceil 2147483646.5 = Some 2147483647
  /\ static_cast_int_ceil 2147483647.5 = None
  /\ static_cast_int_ceil infinity = None
  /\ static_cast_int_ceil nan = None.
Proof. vm_compute. repeat split. Qed.

(** A counted loop folds its body over the indices it visits. *)
Lemma for_loop_fold body n len :
  forall i sum,
    0 <= i -> i + Z.of_nat len = n ->
    for_loop len i n body sum
    = fold_left (fun acc j => body j acc) (map Z.of_nat (seq (Z.to_nat i) len)) sum.
Proof.
  induction len as [|len IH]; intros i sum Hi Hn.
  - reflexivity.
  - cbn [for_loop seq map fold_left].
    replace (i <? n) with true by (symmetry; apply Z.ltb_lt; lia).
    rewrite Z2Nat.id by exact Hi.
    rewrite (IH (i + 1)) by lia.
    replace (Z.to_nat (i + 1)) with (S (Z.to_nat i)) by lia.
    reflexivity.
Qed.

(** The fuel [for_range] passes is what the loop needs: with more of it the
    loop ends on its own test, with the same result. *)
Lemma for_loop_enough_fuel body n :
  forall fuel i sum,
    (Z.to_nat (n - i) <= fuel)%nat ->
    for_loop fuel i n body sum = for_range i n body sum.
Proof.
  unfold for_range.
  induction fuel as [|fuel IH]; intros i sum Hfuel.
  - replace (Z.to_nat (n - i)) with O by lia. reflexivity.
  - cbn [for_loop]. destruct (i <? n) eqn:Hi.
    + apply Z.ltb_lt in Hi.
      replace (Z.to_nat (n - i)) with (S (Z.to_nat (n - (i + 1)))) by lia.
      cbn [for_loop].
      replace (i <? n) with true by (symmetry; apply Z.ltb_lt; lia).
      apply IH. lia.
    + apply Z.ltb_ge in Hi.
      replace (Z.to_nat (n - i)) with O by lia. reflexivity.
Qed.

(** ** The fixed formulas *)

Example central_rectangles_1 :
  central_rectangles 0 2 1 = (2 * func 1)%float.
Proof. vm_compute. reflexivity. Qed.

Example trapezoidal_rule_2 :
  trapezoidal_rule 0 2 2 = (1 * ((func 0 + func 2) / 2 + func 1))%float.
Proof. vm_compute. reflexivity. Qed.

Example simpsons_rule_2 :
  simpsons_rule 0 2 2 = (1 / 3 * (func 0 + func 2 + 4 * func 1))%float.
Proof. vm_compute. reflexivity. Qed.

(** C5: with a subdivision count [n <= 0] each of the three formulas
    returns exactly [0.0]; being total functions into [double], they have
    no other way to end. *)
Theorem degenerate_count_returns_zero (a b : float) (n : Z) :
  n <= 0 ->
  central_rectangles a b n = 0%float
  /\ trapezoidal_rule a b n = 0%float
  /\ simpsons_rule a b n = 0%float.
Proof.
  intros Hn. apply Z.leb_le in Hn.
  unfold central_rectangles, trapezoidal_rule, simpsons_rule.
  rewrite Hn. repeat split.
Qed.

Lemma degenerate_count_returns_zero_witness :
  -3 <= 0
  /\ central_rectangles 0 2 (-3) = 0%float
  /\ trapezoidal_rule 0 2 (-3) = 0%float
  /\ simpsons_rule 0 2 (-3) = 0%float.
Proof.
  split; [lia | apply (degenerate_count_returns_zero 0 2 (-3)); lia].
Defined.

Lemma fold_left_ext_in (f g : float -> Z -> float) (l : list Z) :
  (forall acc x, In x l -> f acc x = g acc x) ->
  forall init, fold_left f l init = fold_left g l init.
Proof.
  induction l as [|x l IH]; intros Hfg init; [reflexivity|].
  cbn [fold_left]. rewrite (Hfg init x) by (left; reflexivity).
  apply IH. intros acc y Hy. apply Hfg. right. exact Hy.
Qed.

(** On an even count Simpson's rule is the weighted sum over that many
    subintervals. *)
Lemma simpsons_rule_even_count (a b : float) (m : Z) :
  0 < m -> Z.odd m = false -> simpsons_rule a b m = simpson_sum a b m.
Proof.
  intros Hpos Heven.
  unfold simpsons_rule.
  replace (m <=? 0) with false by (symmetry; apply Z.leb_gt; lia).
  rewrite (rem_2_odd m), Heven by lia.
  cbn [Z.eqb negb].
  unfold simpson_sum, for_range, interior. cbv zeta.
  rewrite (for_loop_fold _ m (Z.to_nat (m - 1)) 1) by lia.
  change (Z.to_nat 1) with 1%nat.
  f_equal. apply fold_left_ext_in.
  intros acc i Hi. apply in_map_iff in Hi. destruct Hi as [k [<- _]].
  rewrite (rem_2_odd (Z.of_nat k)) by lia.
  unfold simpson_weight. destruct (Z.odd (Z.of_nat k)); reflexivity.
Qed.

(** C6: for an odd count [n > 0] (with [n + 1] still an [int]) Simpson's
    rule rounds [n] up to the next even value before use: what it returns
    is the Simpson sum over [n + 1] subintervals, with the step
    [h = (b - a) / (n + 1)] and the nodes [a + i h], [i = 0 .. n + 1], and
    so the value it returns for [n + 1]. *)
Theorem simpsons_rule_rounds_odd_up (a b : float) (n : Z) :
  0 < n -> Z.odd n = true -> n + 1 <= CInt.INT_MAX ->
  simpsons_rule a b n = simpson_sum a b (n + 1)
  /\ simpsons_rule a b n = simpsons_rule a b (n + 1).
Proof.
  intros Hpos Hodd Hmax.
  assert (Heven : Z.odd (n + 1) = false).
  { replace (n + 1) with (Z.succ n) by lia.
    rewrite Z.odd_succ, <- Z.negb_odd, Hodd. reflexivity. }
  assert (Hround : simpsons_rule a b n = simpsons_rule a b (n + 1)).
  { unfold simpsons_rule.
    replace (n <=? 0) with false by (symmetry; apply Z.leb_gt; lia).
    replace (n + 1 <=? 0) with false by (symmetry; apply Z.leb_gt; lia).
    rewrite (rem_2_odd n) by lia.
    rewrite (rem_2_odd (n + 1)) by lia.
    rewrite Hodd, Heven. cbn [negb Z.eqb].
    unfold CInt.add. rewrite wrap_in_range; [reflexivity|].
    unfold CInt.in_range, CInt.INT_MIN. lia. }
  split; [|exact Hround].
  rewrite Hround. apply simpsons_rule_even_count; [lia | exact Heven].
Qed.

Lemma simpsons_rule_rounds_odd_up_witness :
  simpsons_rule 0 2 3 = simpson_sum 0 2 (3 + 1)
  /\ simpsons_rule 0 2 3 = simpsons_rule 0 2 (3 + 1).
Proof.
  apply (simpsons_rule_rounds_odd_up 0 2 3);
    [lia | reflexivity | unfold CInt.INT_MAX; lia].
Defined.

(** The count matters: on the program's interval the sums over 2 and over
    4 subintervals differ, and the count 3 gives the latter. *)
Example simpsons_rule_3_is_not_2 :
  simpsons_rule 0 2 3 = simpsons_rule 0 2 4
  /\ (simpsons_rule 0 2 3 =? simpsons_rule 0 2 2)%float = false.
Proof. vm_compute. split; reflexivity. Qed.

(** C7: for [n > 0] the trapezoidal rule returns
    [h * ((f(a) + f(b)) / 2 + sum_{i=1}^{n-1} f(a + i h))], [h = (b - a) / n],
    for the integrand [f(x) = (x + 3) / (x^2 + 4)]. *)
Theorem trapezoidal_rule_is_formula (a b : float) (n : Z) :
  0 < n ->
  trapezoidal_rule a b n = trapezoid_formula a b n.
Proof.
  intros Hn.
  unfold trapezoidal_rule, trapezoid_formula, for_range, interior, f, func.
  replace (n <=? 0) with false by (symmetry; apply Z.leb_gt; lia).
  cbv zeta.
  rewrite (for_loop_fold _ n (Z.to_nat (n - 1)) 1) by lia.
  reflexivity.
Qed.

Lemma trapezoidal_rule_is_formula_witness :
  trapezoidal_rule 0 2 4 = trapezoid_formula 0 2 4.
Proof.
  apply (trapezoidal_rule_is_formula 0 2 4). lia.
Defined.

(** ** The planner *)

Lemma ceil_SF_Qceiling x q : SF2Q x = Some q -> ceil_SF x = Some (Qceiling q).
Proof.
  destruct x as [s | s | | s m e]; cbn [SF2Q ceil_SF]; try discriminate.
  - intros [= <-]. reflexivity.
  - intros [= <-]. f_equal.
    destruct (0 <=? e) eqn:He.
    + symmetry. apply Qceiling_Z.
    + apply Z.leb_gt in He.
      assert (Hpow : 0 < 2 ^ (- e)) by (apply Z.pow_pos_nonneg; lia).
      unfold Qceiling, Qfloor, Qopp. cbn [Qnum Qden].
      rewrite Z2Pos.id by exact Hpow. reflexivity.
Qed.

(** A square root is never a negative number. *)
Lemma ceil_sqrt_nonneg x c :
  ceil_SF (Prim2SF (PrimFloat.sqrt x)) = Some c -> 0 <= c.
Proof.
  rewrite sqrt_spec. unfold SF64sqrt, SFsqrt.
  destruct (Prim2SF x) as [s | [|] | | [|] m e]; cbn [ceil_SF]; try discriminate.
  - intros [= <-]. lia.
  - destruct (SFsqrt_core_binary prec emax (Z.pos m) e) as [[mz ez] lz].
    unfold binary_round_aux.
    destruct (shr_fexp prec emax mz ez lz) as [mrs' e'].
    destruct (shr_fexp prec emax _ e' loc_Exact) as [mrs'' e''].
    destruct (shr_m mrs'') as [| m' | m']; cbn [ceil_SF]; try discriminate.
    + intros [= <-]. lia.
    + destruct (e'' <=? emax - prec); cbn [ceil_SF]; try discriminate.
      intros [= <-].
      destruct (0 <=? e'') eqn:He.
      * apply Z.leb_le in He.
        assert (H : 0 <= Z.pos m' * 2 ^ e'')
          by (apply Z.mul_nonneg_nonneg; [lia | apply Z.pow_nonneg; lia]).
        exact H.
      * apply Z.leb_gt in He.
        assert (Hpow : 0 < 2 ^ (- e'')) by (apply Z.pow_pos_nonneg; lia).
        assert (H : - Z.pos m' / 2 ^ (- e'') <= 0)
          by (apply Z.div_le_upper_bound; lia).
        assert (H' : 0 <= - (- Z.pos m' / 2 ^ (- e''))) by lia.
        exact H'.
Qed.

(** [ceil_sqrt q] is the least natural number whose square is at least [q]:
    the minimum [n] with [L^3 M2 / (k n^2) <= eps] when
    [q = L^3 M2 / (k eps)]. *)
Lemma ceil_sqrt_least (q : Q) :
  (0 <= q)%Q ->
  0 <= ceil_sqrt q
  /\ (q <= inject_Z (ceil_sqrt q * ceil_sqrt q))%Q
  /\ forall m, 0 <= m -> (q <= inject_Z (m * m))%Q -> ceil_sqrt q <= m.
Proof.
  intros Hq.
  assert (Hup : (q <= inject_Z (Qceiling q))%Q) by apply Qle_ceiling.
  assert (Hint : forall z, (q <= inject_Z z)%Q -> Qceiling q <= z).
  { intros z Hz. rewrite <- (Qceiling_Z z). apply Qceiling_resp_le, Hz. }
  assert (Hc0 : 0 <= Qceiling q) by (apply (Qceiling_resp_le 0 q), Hq).
  assert (Hle : forall z, Qceiling q <= z -> (q <= inject_Z z)%Q).
  { intros z Hz. eapply Qle_trans; [exact Hup|]. rewrite <- Zle_Qle. exact Hz. }
  unfold ceil_sqrt. set (c := Qceiling q) in *.
  destruct (c <=? 0) eqn:Hc.
  - apply Z.leb_le in Hc. repeat split; [lia | apply Hle; lia | intros; lia].
  - apply Z.leb_gt in Hc.
    pose proof (Z.sqrt_spec c ltac:(lia)) as [Hlo Hhi].
    pose proof (Z.sqrt_nonneg c) as Hr.
    set (r := Z.sqrt c) in *.
    destruct (r * r =? c) eqn:Hsq.
    + apply Z.eqb_eq in Hsq. repeat split; [lia | apply Hle; lia |].
      intros m Hm Hqm. apply Hint in Hqm. nia.
    + apply Z.eqb_neq in Hsq. repeat split; [lia | apply Hle; nia |].
      intros m Hm Hqm. apply Hint in Hqm. nia.
Qed.

(** C2: the planner yields [ceil (sqrt (L^3 M2 / (k eps)))], floored at 1,
    the arithmetic being the program's double arithmetic and the result an
    [int]; for [L = 2], [M2 = 0.43156], [eps = 0.0001] that is 38 with
    [k = 24] and 54 with [k = 12], as the formula gives in exact arithmetic
    too. *)
Theorem planner_subdivision_count (pow : float -> float -> float) :
  (forall k a b M2 eps q,
      double_value (PrimFloat.sqrt (pow (b - a) 3 * M2 / (k * eps))%float) = Some q ->
      Qceiling q <= CInt.INT_MAX ->
      n_m2 pow k a b M2 eps = Some (Z.max 1 (Qceiling q)))
  /\ (pow 2%float 3%float = 8%float ->
      n_rect_m2 pow 0 2 M2_val 0.0001 = Some 38
      /\ n_trap_m2 pow 0 2 M2_val 0.0001 = Some 54)
  /\ planner_formula 2 0.43156 24 0.0001 = 38
  /\ planner_formula 2 0.43156 12 0.0001 = 54.
Proof.
  split; [|split; [|split]].
  - intros k a b M2 eps q Hq Hmax.
    unfold n_m2, static_cast_int_ceil.
    unfold double_value in Hq.
    pose proof (ceil_SF_Qceiling _ _ Hq) as Hceil.
    pose proof (ceil_sqrt_nonneg _ _ Hceil) as Hnonneg.
    rewrite Hceil.
    replace (CInt.INT_MIN <=? Qceiling q) with true
      by (symmetry; apply Z.leb_le; unfold CInt.INT_MIN; lia).
    replace (Qceiling q <=? CInt.INT_MAX) with true
      by (symmetry; apply Z.leb_le; exact Hmax).
    cbn [andb]. f_equal.
    destruct (Qceiling q =? 0) eqn:H0.
    + apply Z.eqb_eq in H0. lia.
    + apply Z.eqb_neq in H0. lia.
  - intros Hpow. unfold n_rect_m2, n_trap_m2, n_m2.
    change (2 - 0)%float with 2%float.
    rewrite Hpow. split; vm_compute; reflexivity.
  - vm_compute. reflexivity.
  - vm_compute. reflexivity.
Qed.

(** The planner works in double arithmetic and returns an [int].  One ulp
    above a perfect square the rounded quotient is the square itself, and
    the count is one less than in exact arithmetic; a ceiling beyond the
    [int] range has no defined conversion. *)
Example planner_rounds_as_doubles_do :
  n_rect_m2 pow_ref 0 1 0x1.8000000000001p+4 1 = Some 1
  /\ planner_formula 1 (24 + (1 # 281474976710656)) 24 1 = 2.
Proof. vm_compute. split; reflexivity. Qed.

Example planner_count_must_fit_int :
  n_rect_m2 pow_ref 0 2 1e30 0.0001 = None.
Proof. vm_compute. reflexivity. Qed.

Lemma planner_subdivision_count_witness :
  n_m2 pow_ref 24 0 2 M2_val 0.0001
  = Some (Z.max 1 (Qceiling (5337891735402652 # 140737488355328)))
  /\ n_rect_m2 pow_ref 0 2 M2_val 0.0001 = Some 38
  /\ n_trap_m2 pow_ref 0 2 M2_val 0.0001 = Some 54.
Proof.
  destruct (planner_subdivision_count pow_ref) as [Hgen [Hconcrete _]].
  split.
  - apply Hgen; [vm_compute; reflexivity | vm_compute; discriminate].
  - apply Hconcrete. vm_compute. reflexivity.
Defined.

(** ** The adaptive driver *)

Import Runge.

Lemma n_at_S k : n_at (S k) = 2 * n_at k.
Proof.
  unfold n_at. rewrite Nat2Z.inj_succ.
  replace (Z.succ (Z.of_nat k) + 1) with (Z.succ (Z.of_nat k + 1)) by lia.
  apply Z.pow_succ_r. lia.
Qed.

Lemma n_at_pos k : 0 < n_at k.
Proof. unfold n_at. apply Z.pow_pos_nonneg; lia. Qed.

Lemma n_at_mono j k : (j <= k)%nat -> n_at j <= n_at k.
Proof. intros H. unfold n_at. apply Z.pow_le_mono_r; lia. Qed.

Lemma n_at_20 : n_at 20 = 2097152.
Proof. reflexivity. Qed.

Lemma n_at_21 : n_at 21 = 4194304.
Proof. reflexivity. Qed.

(** Doubling passes the ceiling of 4,000,000 at the 21st doubling. *)
Lemma below_ceiling k : n_at k <= 4000000 -> (k <= 20)%nat.
Proof.
  intros H. destruct (Nat.le_gt_cases k 20) as [Hk | Hk]; [exact Hk|].
  pose proof (n_at_mono 21 k ltac:(lia)). rewrite n_at_21 in *. lia.
Qed.

Lemma doublings_S k : doublings (S k) = doublings k ++ [n_at k].
Proof. unfold doublings. rewrite seq_S, map_app. reflexivity. Qed.

Lemma doublings_length k : length (doublings k) = k.
Proof. unfold doublings. rewrite length_map, length_seq. reflexivity. Qed.

Lemma doublings_bound k x : In x (doublings k) -> exists j, (j < k)%nat /\ x = n_at j.
Proof.
  unfold doublings. rewrite in_map_iff. intros [j [Hx Hj]].
  apply in_seq in Hj. exists j. split; [lia | congruence].
Qed.

Lemma calls_app tr tr' : calls (tr ++ tr') = calls tr ++ calls tr'.
Proof.
  induction tr as [|[n | n | it e l] tr IH]; cbn [calls app];
    rewrite ?IH; reflexivity.
Qed.

Lemma calls_map_Call l : calls (map Call l) = l.
Proof. induction l as [|x l IH]; cbn [calls map]; congruence. Qed.

Section DriverFacts.

Variable pow : float -> float -> float.
Variable integrator : float -> float -> Z -> float.
Variables a b epsilon : float.
Variable p : Z.

Local Abbreviation loop_body := (loop_body pow integrator a b epsilon p).
Local Abbreviation after_loop := (after_loop pow epsilon p).
Local Abbreviation do_while := (do_while pow integrator a b epsilon p).
Local Abbreviation initial_head := (initial_head integrator a b p).
Local Abbreviation head_after := (head_after pow integrator a b epsilon p).
Local Abbreviation integrate_with_runge := (integrate_with_runge pow integrator a b epsilon p).
Local Abbreviation I_at := (I_at integrator a b).
Local Abbreviation richardson := (richardson pow integrator a b p).
Local Abbreviation runge_estimate := (runge_estimate pow integrator a b p).
Local Abbreviation stops_at := (stops_at pow integrator a b epsilon p).
Local Abbreviation stopping_rule := (stopping_rule pow integrator a b epsilon p).
Local Abbreviation at_head := (at_head integrator a b).

Lemma initial_n_is_2 : initial_n p = 2.
Proof. unfold initial_n. destruct (p =? 4); reflexivity. Qed.

Lemma at_head_initial : at_head 0 initial_head.
Proof.
  unfold Runge.at_head, Runge.initial_head, Runge.I_at.
  rewrite initial_n_is_2. split; [reflexivity | cbv; discriminate].
Qed.

(** One execution of the body, from the top of the [(k+1)]-th iteration. *)
Lemma loop_body_at k s :
  at_head k s ->
  loop_body s =
  if stops_at (S k) then
    Return (mkResult (richardson (S k)) (n_at (S k)) (map Call (doublings (S (S k)))))
  else if 4000000 <? n_at (S k) then
    Break (mkHead (n_at (S k)) (I_at (S k)) (Z.of_nat (S k))
             (map Call (doublings (S (S k))) ++ [WarnCeiling (n_at (S k))]))
          (I_at k)
  else
    Fallthrough (mkHead (n_at (S k)) (I_at (S k)) (Z.of_nat (S k))
                   (map Call (doublings (S (S k)))))
                (I_at k).
Proof.
  intros [-> Hn].
  assert (Hmul : CInt.mul (n_at k) 2 = n_at (S k)).
  { unfold CInt.mul. rewrite wrap_in_range.
    - rewrite n_at_S. lia.
    - pose proof (n_at_pos k). unfold CInt.in_range, CInt.INT_MIN, CInt.INT_MAX. lia. }
  unfold Runge.loop_body. cbn [st_n st_I_h st_current_iteration st_trace].
  rewrite Hmul.
  replace (map Call (doublings (S k)) ++ [Call (n_at (S k))])
    with (map Call (doublings (S (S k))))
    by (rewrite (doublings_S (S k)), map_app; reflexivity).
  replace (Z.of_nat k + 1) with (Z.of_nat (S k)) by lia.
  reflexivity.
Qed.

Lemma head_after_at k : forall s, head_after k = Some s -> at_head k s.
Proof.
  induction k as [|k IH]; intros s.
  - cbn [Runge.head_after]. intros [= <-]. apply at_head_initial.
  - cbn [Runge.head_after].
    destruct (head_after k) as [s0|]; [|discriminate].
    rewrite (loop_body_at k s0 (IH s0 eq_refl)).
    destruct (stops_at (S k)); [discriminate|].
    destruct (4000000 <? n_at (S k)) eqn:Hc; [discriminate|].
    cbn [st_current_iteration].
    destruct (Z.of_nat (S k) <? max_iterations); [|discriminate].
    intros [= <-]. split; [reflexivity | apply Z.ltb_ge in Hc; exact Hc].
Qed.

(** A run is the loop resumed at any of the loop heads it passes. *)
Lemma run_from_head k :
  forall s, head_after k = Some s ->
  integrate_with_runge = do_while (Z.to_nat max_iterations - k) s.
Proof.
  induction k as [|k IH]; intros s Hs.
  - cbn [Runge.head_after] in Hs. injection Hs as <-.
    unfold Runge.integrate_with_runge. rewrite Nat.sub_0_r. reflexivity.
  - cbn [Runge.head_after] in Hs.
    destruct (head_after k) as [s0|] eqn:Hs0; [|discriminate].
    pose proof (head_after_at k s0 Hs0) as Hat.
    pose proof (below_ceiling k (proj2 Hat)) as Hk.
    rewrite (IH s0 eq_refl).
    replace (Z.to_nat max_iterations - k)%nat
      with (S (Z.to_nat max_iterations - S k)) by (unfold max_iterations; lia).
    cbn [Runge.do_while].
    destruct (loop_body s0) as [r | s' I_2h | s' I_2h]; try discriminate.
    destruct (st_current_iteration s' <? max_iterations); [|discriminate].
    injection Hs as <-. reflexivity.
Qed.

Lemma pass_needs_fuel k : n_at k <= 4000000 -> (1 <= Z.to_nat max_iterations - k)%nat.
Proof. intros H. apply below_ceiling in H. unfold max_iterations. lia. Qed.

(** What the loop returns when it is resumed at the top of the body after
    [k] executions: the Richardson value and the count of some later
    doubling [j], not beyond the 21st. *)
Lemma do_while_from fuel :
  forall k s,
    at_head k s -> (21 <= k + fuel)%nat ->
    exists j r,
      (k < j <= 21)%nat
      /\ do_while fuel s = Some r
      /\ n_final r = n_at j
      /\ value r = richardson j
      /\ calls (events r) = doublings (S j).
Proof.
  induction fuel as [|fuel IH]; intros k s Hat Hfuel.
  - pose proof (below_ceiling k (proj2 Hat)). lia.
  - pose proof (below_ceiling k (proj2 Hat)) as Hk.
    cbn [Runge.do_while]. rewrite (loop_body_at k s Hat).
    destruct (stops_at (S k)).
    + exists (S k). eexists. split; [lia|]. split; [reflexivity|].
      cbn [n_final value events]. rewrite calls_map_Call. auto.
    + destruct (4000000 <? n_at (S k)) eqn:Hc.
      * exists (S k). eexists. split; [lia|]. split; [reflexivity|].
        unfold Runge.after_loop.
        cbn [n_final value events st_n st_I_h st_trace st_current_iteration].
        rewrite !calls_app, calls_map_Call. cbn [calls]. rewrite !app_nil_r.
        auto.
      * apply Z.ltb_ge in Hc. cbn [st_current_iteration].
        destruct (Z.of_nat (S k) <? max_iterations).
        -- destruct (IH (S k) _ (conj eq_refl Hc) ltac:(lia))
             as [j [r [Hj Hr]]].
           exists j, r. split; [lia | exact Hr].
        -- exists (S k). eexists. split; [lia|]. split; [reflexivity|].
           unfold Runge.after_loop.
           cbn [n_final value events st_n st_I_h st_trace st_current_iteration].
           rewrite calls_app, calls_map_Call. cbn [calls]. rewrite app_nil_r.
           auto.
Qed.

(** Every run returns, with the count and the Richardson value of one of
    the first 21 doublings, having called the integrator with the counts
    up to that one. *)
Lemma run_returns :
  exists j r,
    (1 <= j <= 21)%nat
    /\ integrate_with_runge = Some r
    /\ n_final r = n_at j
    /\ value r = richardson j
    /\ calls (events r) = doublings (S j).
Proof.
  destruct (do_while_from (Z.to_nat max_iterations) 0 initial_head at_head_initial)
    as [j [r [Hj Hr]]].
  - unfold max_iterations. lia.
  - exists j, r. split; [lia | exact Hr].
Qed.

(** The result of the loop does not depend on the fuel, once there is
    enough of it. *)
Lemma do_while_more_fuel fuel :
  forall s r, do_while fuel s = Some r -> do_while (S fuel) s = Some r.
Proof.
  induction fuel as [|fuel IH]; intros s r H.
  - discriminate.
  - change (do_while (S (S fuel)) s)
      with (match loop_body s with
            | Return r => Some r
            | Break s' I_2h => Some (after_loop s' I_2h)
            | Fallthrough s' I_2h =>
                if st_current_iteration s' <? max_iterations
                then do_while (S fuel) s'
                else Some (after_loop s' I_2h)
            end).
    cbn [Runge.do_while] in H.
    destruct (loop_body s) as [r' | s' I_2h | s' I_2h]; try exact H.
    destruct (st_current_iteration s' <? max_iterations); [|exact H].
    apply IH, H.
Qed.

(** For orders up to 4 the decision of the code is the stopping rule of the
    specification. *)
Lemma stops_at_is_stopping_rule j :
  p <= 4 -> (1 <= j <= 21)%nat -> stops_at j = stopping_rule j.
Proof.
  intros Hp Hj. unfold Runge.stops_at, Runge.stopping_rule, min_n_for_reliable_runge.
  replace (Z.of_nat (Nat.pred j) <? max_iterations - 1) with true
    by (symmetry; apply Z.ltb_lt; unfold max_iterations; lia).
  rewrite andb_true_r.
  destruct (runge_estimate j <? epsilon)%float; [|rewrite andb_false_r; reflexivity].
  rewrite andb_true_r. cbn [andb].
  destruct (p =? 4) eqn:Hp4.
  - apply Z.eqb_eq in Hp4.
    replace (4 <=? p) with true by (symmetry; apply Z.leb_le; lia).
    replace (p <? 4) with false by (symmetry; apply Z.ltb_ge; lia).
    cbn [andb orb]. rewrite Z.leb_antisym.
    destruct (n_at j <? 8); reflexivity.
  - apply Z.eqb_neq in Hp4.
    replace (4 <=? p) with false by (symmetry; apply Z.leb_gt; lia).
    replace (p <? 4) with true by (symmetry; apply Z.ltb_lt; lia).
    reflexivity.
Qed.

(** While nothing stops the loop it goes through the doublings one by
    one, up to the 20th. *)
Lemma head_after_unconverged k :
  (k <= 20)%nat ->
  (forall j, (1 <= j <= k)%nat -> stops_at j = false) ->
  head_after k
  = Some (mkHead (n_at k) (I_at k) (Z.of_nat k) (map Call (doublings (S k)))).
Proof.
  induction k as [|k IH]; intros Hk Hnostop.
  - cbn [Runge.head_after]. f_equal.
    destruct at_head_initial as [Hinit _]. exact Hinit.
  - cbn [Runge.head_after].
    rewrite IH by (try lia; intros j Hj; apply Hnostop; lia).
    assert (Hat : at_head k
                    (mkHead (n_at k) (I_at k) (Z.of_nat k) (map Call (doublings (S k))))).
    { split; [reflexivity|].
      pose proof (n_at_mono k 20 ltac:(lia)). rewrite n_at_20 in *. lia. }
    rewrite (loop_body_at k _ Hat), (Hnostop (S k)) by lia.
    pose proof (n_at_mono (S k) 20 ltac:(lia)) as Hn. rewrite n_at_20 in Hn.
    replace (4000000 <? n_at (S k)) with false by (symmetry; apply Z.ltb_ge; lia).
    cbn [st_current_iteration].
    replace (Z.of_nat (S k) <? max_iterations) with true
      by (symmetry; apply Z.ltb_lt; unfold max_iterations; lia).
    reflexivity.
Qed.

(** A run in which the code never decides to stop ends at the 21st
    doubling, after a call of the integrator with 4,194,304 subdivisions. *)
Lemma unconverged_run :
  (forall j, (1 <= j <= 21)%nat -> stops_at j = false) ->
  exists r,
    integrate_with_runge = Some r
    /\ n_final r = 4194304
    /\ calls (events r) = doublings 22.
Proof.
  intros Hnostop.
  pose proof (head_after_unconverged 20 ltac:(lia)
                ltac:(intros j Hj; apply Hnostop; lia)) as Hhead.
  pose proof (head_after_at 20 _ Hhead) as Hat.
  rewrite (run_from_head 20 _ Hhead).
  replace (Z.to_nat max_iterations - 20)%nat with (S 1979) by reflexivity.
  cbn [Runge.do_while].
  rewrite (loop_body_at 20 _ Hat), (Hnostop 21%nat) by lia.
  rewrite n_at_21.
  replace (4000000 <? 4194304) with true by reflexivity.
  eexists. split; [reflexivity|].
  unfold Runge.after_loop.
  cbn [n_final events st_n st_trace].
  rewrite !calls_app, calls_map_Call. cbn [calls]. rewrite !app_nil_r.
  split; reflexivity.
Qed.

(** C1: when the loop reaches its [(k+1)]-th doubling and there Runge's
    estimate [|I_h - I_2h| / (2^p - 1)] is below [epsilon], with [p < 4] or
    the doubled count at least 8, the driver returns the Richardson value
    [I_h + (I_h - I_2h) / (2^p - 1)] and that count. *)
Theorem stopping_rule_returns_richardson (k : nat) (s : head) :
  head_after k = Some s ->
  (runge_estimate (S k) <? epsilon)%float = true ->
  p < 4 \/ 8 <= n_at (S k) ->
  exists r,
    integrate_with_runge = Some r
    /\ value r
       = (I_at (S k) + (I_at (S k) - I_at k) / (pow 2 (double_of_int p) - 1))%float
    /\ n_final r = n_at (S k)
    /\ Z.of_nat (iterations r) = Z.of_nat k + 1.
Proof.
  intros Hs Hest Hrel.
  pose proof (head_after_at k s Hs) as Hat.
  assert (Hstop : stops_at (S k) = true).
  { unfold Runge.stops_at. rewrite Hest.
    destruct Hrel as [Hp | Hn].
    - replace (4 <=? p) with false by (symmetry; apply Z.leb_gt; lia).
      reflexivity.
    - replace (n_at (S k) <? min_n_for_reliable_runge p) with false.
      + rewrite andb_false_r. reflexivity.
      + symmetry. apply Z.ltb_ge. unfold min_n_for_reliable_runge.
        destruct (p =? 4); lia. }
  rewrite (run_from_head k s Hs).
  destruct (Z.to_nat max_iterations - k)%nat as [|fuel] eqn:Hfuel.
  - pose proof (pass_needs_fuel k (proj2 Hat)). lia.
  - cbn [Runge.do_while]. rewrite (loop_body_at k s Hat), Hstop.
    eexists. split; [reflexivity|].
    unfold iterations. cbn [value n_final events].
    rewrite calls_map_Call, doublings_length.
    repeat split. lia.
Qed.

(** C4: when the loop reaches its [(k+1)]-th doubling, the stopping rule
    fails there and the budget is spent (the count has passed 4,000,000 or
    [max_iterations] executions are done), the driver still returns: the
    Richardson value of its last two iterates and the last count, after the
    warning on [std::cerr]. *)
Theorem exhausted_budget_returns_richardson (k : nat) (s : head) :
  head_after k = Some s ->
  stopping_rule (S k) = false ->
  4000000 < n_at (S k) \/ max_iterations <= Z.of_nat (S k) ->
  exists r warnings,
    integrate_with_runge = Some r
    /\ value r
       = (I_at (S k) + (I_at (S k) - I_at k) / (pow 2 (double_of_int p) - 1))%float
    /\ n_final r = n_at (S k)
    /\ events r = map Call (doublings (S (S k))) ++ warnings
    /\ In (WarnNotConverged (Z.of_nat (S k)) epsilon (runge_estimate (S k))) warnings.
Proof.
  intros Hs Hrule Hbudget.
  pose proof (head_after_at k s Hs) as Hat.
  pose proof (below_ceiling k (proj2 Hat)) as Hk.
  assert (Hn : 4000000 < n_at (S k))
    by (destruct Hbudget as [H | H]; [exact H | unfold max_iterations in H; lia]).
  assert (Hstop : stops_at (S k) = false).
  { unfold Runge.stopping_rule in Hrule. unfold Runge.stops_at.
    replace (8 <=? n_at (S k)) with true in Hrule
      by (symmetry; apply Z.leb_le; lia).
    rewrite orb_true_r, andb_true_r in Hrule. rewrite Hrule.
    rewrite andb_false_r. reflexivity. }
  rewrite (run_from_head k s Hs).
  destruct (Z.to_nat max_iterations - k)%nat as [|fuel] eqn:Hfuel.
  - pose proof (pass_needs_fuel k (proj2 Hat)). lia.
  - cbn [Runge.do_while]. rewrite (loop_body_at k s Hat), Hstop.
    replace (4000000 <? n_at (S k)) with true by (symmetry; apply Z.ltb_lt; exact Hn).
    eexists. eexists. split; [reflexivity|].
    unfold Runge.after_loop.
    cbn [value n_final events st_n st_I_h st_trace st_current_iteration].
    rewrite <- app_assoc.
    repeat split. cbn [app]. right. left. reflexivity.
Qed.

(** C3, as the code has it: the driver does not double a count that has
    passed 4,000,000, so every call of the integrator but the last has a
    count of at most 4,000,000 and the last one a count of at most
    4,194,304. *)
Theorem calls_respect_ceiling_but_last :
  exists r,
    integrate_with_runge = Some r
    /\ Forall (fun n => n <= 4000000) (removelast (calls (events r)))
    /\ Forall (fun n => n <= 4194304) (calls (events r)).
Proof.
  destruct run_returns as [j [r [Hj [Hr [_ [_ Hcalls]]]]]].
  exists r. split; [exact Hr|]. rewrite Hcalls. split.
  - rewrite doublings_S, removelast_last.
    apply Forall_forall. intros x Hx.
    apply doublings_bound in Hx. destruct Hx as [i [Hi ->]].
    pose proof (n_at_mono i 20 ltac:(lia)). rewrite n_at_20 in *. lia.
  - apply Forall_forall. intros x Hx.
    apply doublings_bound in Hx. destruct Hx as [i [Hi ->]].
    pose proof (n_at_mono i 21 ltac:(lia)). rewrite n_at_21 in *. lia.
Qed.

(** C8: the driver returns on every input, its loop body having been
    executed at most [max_iterations = 2000] times. *)
Theorem driver_terminates :
  exists r,
    integrate_with_runge = Some r
    /\ Z.of_nat (iterations r) <= max_iterations.
Proof.
  destruct run_returns as [j [r [Hj [Hr [_ [_ Hcalls]]]]]].
  exists r. split; [exact Hr|].
  unfold iterations. rewrite Hcalls, doublings_length.
  unfold max_iterations. lia.
Qed.

(** C9: the final count is a power of 2 times the initial count 2. *)
Theorem final_count_is_doubled_initial :
  exists r (k : nat),
    integrate_with_runge = Some r
    /\ n_final r = 2 ^ Z.of_nat k * initial_n p
    /\ initial_n p = 2.
Proof.
  destruct run_returns as [j [r [Hj [Hr [Hn _]]]]].
  exists r, j. split; [exact Hr|]. rewrite initial_n_is_2. split; [|reflexivity].
  rewrite Hn. unfold n_at. rewrite Z.pow_add_r by lia. reflexivity.
Qed.

(** C10: the loop body runs at least once: the integrator is called with 2
    and then with 4 before anything is returned, and the final count is at
    least 4, never the initial 2. *)
Theorem body_runs_at_least_once :
  exists r rest,
    integrate_with_runge = Some r
    /\ calls (events r) = 2 :: 4 :: rest
    /\ (1 <= iterations r)%nat
    /\ 4 <= n_final r.
Proof.
  destruct run_returns as [j [r [Hj [Hr [Hn [_ Hcalls]]]]]].
  destruct j as [|j]; [lia|].
  exists r, (map n_at (seq 2 j)). split; [exact Hr|]. split; [|split].
  - rewrite Hcalls. reflexivity.
  - unfold iterations. rewrite Hcalls, doublings_length. lia.
  - rewrite Hn. pose proof (n_at_mono 1 (S j) ltac:(lia)) as H.
    change (n_at 1) with 4 in H. exact H.
Qed.

End DriverFacts.

(** ** The program's own runs and other evaluations *)

(** The two calls in [main]: trapezoids stop at [n = 64], Simpson at
    [n = 8]. *)
Example main_trapezoid_run :
  option_map (fun r => (n_final r, calls (events r)))
             (integrate_with_runge pow_ref trapezoidal_rule 0 2 0.0001 2)
  = Some (64, [2; 4; 8; 16; 32; 64]).
Proof. vm_compute. reflexivity. Qed.

Example main_simpson_run :
  option_map (fun r => (n_final r, calls (events r)))
             (integrate_with_runge pow_ref simpsons_rule 0 2 0.0001 4)
  = Some (8, [2; 4; 8]).
Proof. vm_compute. reflexivity. Qed.

Lemma stopping_rule_returns_richardson_witness :
  exists r,
    integrate_with_runge pow_ref trapezoidal_rule 0 2 0.0001 2 = Some r
    /\ value r
       = (I_at trapezoidal_rule 0 2 5
          + (I_at trapezoidal_rule 0 2 5 - I_at trapezoidal_rule 0 2 4)
            / (pow_ref 2 (double_of_int 2) - 1))%float
    /\ n_final r = n_at 5
    /\ Z.of_nat (iterations r) = Z.of_nat 4 + 1.
Proof.
  eapply (stopping_rule_returns_richardson pow_ref trapezoidal_rule 0 2 0.0001 2 4).
  - vm_compute. reflexivity.
  - vm_compute. reflexivity.
  - left. lia.
Defined.

Lemma exhausted_budget_returns_richardson_witness :
  exists r warnings,
    integrate_with_runge pow_ref restless 0 2 0.0001 2 = Some r
    /\ value r
       = (I_at restless 0 2 21
          + (I_at restless 0 2 21 - I_at restless 0 2 20)
            / (pow_ref 2 (double_of_int 2) - 1))%float
    /\ n_final r = n_at 21
    /\ events r = map Call (doublings 22) ++ warnings
    /\ In (WarnNotConverged (Z.of_nat 21) 0.0001
             (runge_estimate pow_ref restless 0 2 2 21)) warnings.
Proof.
  eapply (exhausted_budget_returns_richardson pow_ref restless 0 2 0.0001 2 20).
  - vm_compute. reflexivity.
  - vm_compute. reflexivity.
  - left. vm_compute. reflexivity.
Defined.

(** C3 as stated fails: a run that never meets the stopping rule calls the
    integrator with 4,194,304 subdivisions before the ceiling test of
    line 292 is reached. *)
Lemma ceiling_exceeded_by_last_call :
  ~ (forall r,
        integrate_with_runge pow_ref restless 0 2 0.0001 2 = Some r ->
        Forall (fun n => n <= 4000000) (calls (events r))).
Proof.
  intros H.
  destruct (integrate_with_runge pow_ref restless 0 2 0.0001 2) as [r|] eqn:Hr;
    [|vm_compute in Hr; discriminate].
  specialize (H r eq_refl).
  vm_compute in Hr. injection Hr as <-.
  rewrite Forall_forall in H.
  specialize (H 4194304). cbn [calls events] in H.
  assert (Hin : In 4194304
                   [2; 4; 8; 16; 32; 64; 128; 256; 512; 1024; 2048; 4096; 8192;
                    16384; 32768; 65536; 131072; 262144; 524288; 1048576;
                    2097152; 4194304])
    by (cbn [In]; tauto).
  specialize (H Hin). lia.
Qed.

(** * Further properties of the program *)

(** ** The shape of every run of the driver *)

Section DriverShape.

Variable pow : float -> float -> float.
Variable integrator : float -> float -> Z -> float.
Variables a b epsilon : float.
Variable p : Z.

Local Abbreviation loop_body := (loop_body pow integrator a b epsilon p).
Local Abbreviation do_while := (do_while pow integrator a b epsilon p).
Local Abbreviation initial_head := (initial_head integrator a b p).
Local Abbreviation integrate_with_runge := (integrate_with_runge pow integrator a b epsilon p).
Local Abbreviation I_at := (I_at integrator a b).
Local Abbreviation richardson := (richardson pow integrator a b p).
Local Abbreviation runge_estimate := (runge_estimate pow integrator a b p).
Local Abbreviation stops_at := (stops_at pow integrator a b epsilon p).
Local Abbreviation at_head := (at_head integrator a b).

(** Resumed after [k] executions of the body, the loop stops at the first
    later doubling [j] whose decision is to stop, without a warning, or
    else leaves by the ceiling test at the 21st with both warnings; the
    test of the [while] never fails. *)
Lemma do_while_shape fuel :
  forall k s,
    at_head k s -> (21 <= k + fuel)%nat ->
    exists j,
      (k < j <= 21)%nat
      /\ (forall i, (k < i < j)%nat -> stops_at i = false)
      /\ ((stops_at j = true
           /\ do_while fuel s
              = Some (mkResult (richardson j) (n_at j) (map Call (doublings (S j)))))
          \/ (j = 21%nat /\ stops_at j = false
              /\ do_while fuel s
                 = Some (mkResult (richardson j) (n_at j)
                           (map Call (doublings (S j))
                            ++ [WarnCeiling (n_at j);
                                WarnNotConverged (Z.of_nat j) epsilon (runge_estimate j)])))).
Proof.
  induction fuel as [|fuel IH]; intros k s Hat Hfuel.
  - pose proof (below_ceiling k (proj2 Hat)). lia.
  - pose proof (below_ceiling k (proj2 Hat)) as Hk.
    cbn [Runge.do_while]. rewrite (loop_body_at pow integrator a b epsilon p k s Hat).
    destruct (stops_at (S k)) eqn:Hstop.
    + exists (S k). split; [lia|]. split; [intros i Hi; lia|].
      left. split; [exact Hstop | reflexivity].
    + destruct (4000000 <? n_at (S k)) eqn:Hc.
      * apply Z.ltb_lt in Hc.
        assert (Hj : S k = 21%nat).
        { destruct (Nat.eq_dec (S k) 21) as [E | E]; [exact E|].
          pose proof (n_at_mono (S k) 20 ltac:(lia)) as Hm.
          rewrite n_at_20 in Hm. lia. }
        exists (S k). split; [lia|]. split; [intros i Hi; lia|].
        right. split; [exact Hj|]. split; [exact Hstop|].
        unfold Runge.after_loop.
        cbn [st_n st_I_h st_trace st_current_iteration].
        rewrite <- app_assoc. reflexivity.
      * apply Z.ltb_ge in Hc. cbn [st_current_iteration].
        replace (Z.of_nat (S k) <? max_iterations) with true
          by (symmetry; apply Z.ltb_lt; unfold max_iterations; lia).
        destruct (IH (S k) _ (conj eq_refl Hc) ltac:(lia)) as [j [Hj [Hbefore Hend]]].
        exists j. split; [lia|]. split; [|exact Hend].
        intros i Hi. destruct (Nat.eq_dec i (S k)) as [-> | Hne];
          [exact Hstop | apply Hbefore; lia].
Qed.

Lemma run_shape :
  exists j,
    (1 <= j <= 21)%nat
    /\ (forall i, (1 <= i < j)%nat -> stops_at i = false)
    /\ ((stops_at j = true
         /\ integrate_with_runge
            = Some (mkResult (richardson j) (n_at j) (map Call (doublings (S j)))))
        \/ (j = 21%nat /\ stops_at j = false
            /\ integrate_with_runge
               = Some (mkResult (richardson j) (n_at j)
                         (map Call (doublings (S j))
                          ++ [WarnCeiling (n_at j);
                              WarnNotConverged (Z.of_nat j) epsilon (runge_estimate j)])))).
Proof.
  destruct (do_while_shape (Z.to_nat max_iterations) 0 initial_head
              (at_head_initial integrator a b p))
    as [j [Hj [Hbefore Hend]]].
  - unfold max_iterations. lia.
  - exists j. split; [lia|]. split; [|exact Hend].
    intros i Hi. apply Hbefore. lia.
Qed.

End DriverShape.

(** ** NaN in comparisons and arithmetic *)

Lemma ltb_nan_r x : (x <? nan)%float = false.
Proof.
  rewrite ltb_spec. change (Prim2SF nan) with S754_nan.
  unfold SFltb, SFcompare. destruct (Prim2SF x); reflexivity.
Qed.

Lemma ltb_nan_l y : (nan <? y)%float = false.
Proof. rewrite ltb_spec. change (Prim2SF nan) with S754_nan. reflexivity. Qed.

Lemma div_nan_l y : (nan / y)%float = nan.
Proof.
  apply Prim2SF_inj. rewrite div_spec. change (Prim2SF nan) with S754_nan.
  reflexivity.
Qed.

Lemma mul_nan_l y : (nan * y)%float = nan.
Proof.
  apply Prim2SF_inj. rewrite mul_spec. change (Prim2SF nan) with S754_nan.
  reflexivity.
Qed.

Lemma add_nan_l y : (nan + y)%float = nan.
Proof.
  apply Prim2SF_inj. rewrite add_spec. change (Prim2SF nan) with S754_nan.
  reflexivity.
Qed.

Lemma sub_nan_l y : (nan - y)%float = nan.
Proof.
  apply Prim2SF_inj. rewrite sub_spec. change (Prim2SF nan) with S754_nan.
  reflexivity.
Qed.

Lemma sub_nan_r x : (x - nan)%float = nan.
Proof.
  apply Prim2SF_inj. rewrite sub_spec. change (Prim2SF nan) with S754_nan.
  unfold SF64sub, SFsub. destruct (Prim2SF x); reflexivity.
Qed.

(** ** What the driver does and never does *)

Section DriverExtras.

Variable pow : float -> float -> float.
Variable integrator : float -> float -> Z -> float.
Variables a b epsilon : float.
Variable p : Z.

Local Abbreviation integrate_with_runge := (integrate_with_runge pow integrator a b epsilon p).
Local Abbreviation I_at := (I_at integrator a b).
Local Abbreviation richardson := (richardson pow integrator a b p).
Local Abbreviation runge_estimate := (runge_estimate pow integrator a b p).
Local Abbreviation stops_at := (stops_at pow integrator a b epsilon p).

(** X1: the driver returns at the first doubling at which the code decides
    to stop: if the decision is negative at the doublings before the
    [j]-th and positive at the [j]-th ([j <= 21]), the run ends there with
    the Richardson value, the count [2^(j+1)], [j + 1] calls of the
    integrator and no warning. *)
Theorem run_ends_at_first_stop (j : nat) :
  (1 <= j <= 21)%nat ->
  (forall i, (1 <= i < j)%nat -> stops_at i = false) ->
  stops_at j = true ->
  integrate_with_runge
  = Some (mkResult (richardson j) (n_at j) (map Call (doublings (S j)))).
Proof.
  intros Hj Hbefore Hstop.
  destruct (run_shape pow integrator a b epsilon p) as [j' [Hj' [Hbefore' Hend]]].
  assert (Heq : j' = j).
  { destruct (Nat.lt_trichotomy j' j) as [Hlt | [Heq | Hgt]]; [|exact Heq|].
    - destruct Hend as [[Hs _] | [H21 _]]; [|lia].
      rewrite (Hbefore j') in Hs by lia. discriminate.
    - rewrite (Hbefore' j) in Hstop by lia. discriminate. }
  subst j'. destruct Hend as [[_ Hrun] | [_ [Hs _]]]; [exact Hrun|].
  rewrite Hs in Hstop. discriminate.
Qed.

(** X2: the loop body runs at most 21 times, so [max_iterations] never ends
    the loop.  A run either stops by the decision of the code, and then
    writes no warning, or it is cut by the ceiling test after exactly 21
    doublings, with [n_final = 4194304] and both warnings, in that order. *)
Theorem iteration_cap_is_never_reached :
  exists r,
    integrate_with_runge = Some r
    /\ (iterations r <= 21)%nat
    /\ (events r = map Call (calls (events r))
        \/ (iterations r = 21%nat
            /\ n_final r = 4194304
            /\ events r
               = map Call (calls (events r))
                 ++ [WarnCeiling 4194304;
                     WarnNotConverged 21 epsilon (runge_estimate 21)])).
Proof.
  destruct (run_shape pow integrator a b epsilon p) as [j [Hj [_ Hend]]].
  destruct Hend as [[_ Hrun] | [H21 [_ Hrun]]]; eexists; (split; [exact Hrun|]).
  - unfold iterations. cbn [events]. rewrite calls_map_Call, doublings_length.
    split; [lia | left; reflexivity].
  - subst j. unfold iterations. cbn [events n_final].
    rewrite calls_app, calls_map_Call. cbn [calls]. rewrite app_nil_r.
    rewrite doublings_length.
    split; [lia | right; repeat split].
Qed.

(** X5: the counts the driver passes to the integrator are
    [2, 4, ..., n_final]: each is positive, even and an [int], so that
    Simpson's rule never has to round a count of the driver up, and the
    last one is the count reported. *)
Theorem driver_counts_are_even_and_positive :
  exists r (k : nat),
    integrate_with_runge = Some r
    /\ calls (events r) = map (fun i => 2 ^ (Z.of_nat i + 1)) (seq 0 (S k))
    /\ n_final r = 2 ^ (Z.of_nat k + 1)
    /\ Forall (fun n => 0 < n <= CInt.INT_MAX /\ Z.even n = true) (calls (events r)).
Proof.
  destruct (run_returns pow integrator a b epsilon p)
    as [j [r [Hj [Hr [Hn [_ Hcalls]]]]]].
  exists r, j. split; [exact Hr|]. split; [exact Hcalls|]. split; [exact Hn|].
  rewrite Hcalls. apply Forall_forall. intros x Hx.
  apply doublings_bound in Hx. destruct Hx as [i [Hi ->]].
  pose proof (n_at_pos i) as Hpos.
  pose proof (n_at_mono i 21 ltac:(lia)) as Hmax. rewrite n_at_21 in Hmax.
  split; [unfold CInt.INT_MAX; lia|].
  unfold n_at. rewrite Z.pow_add_r by lia.
  rewrite Z.even_mul. apply orb_true_r.
Qed.

End DriverExtras.

Section DriverOrders.

Variable pow : float -> float -> float.
Variable integrator : float -> float -> Z -> float.
Variables a b epsilon : float.

(** X3: with the order [p = 4] the driver never returns a count below the
    reliability floor: the integrator is called with 2, 4 and 8 at least,
    and [n_final >= 8], however small the first estimate is. *)
Theorem order_four_keeps_reliability_floor :
  exists r rest,
    integrate_with_runge pow integrator a b epsilon 4 = Some r
    /\ calls (events r) = 2 :: 4 :: 8 :: rest
    /\ 8 <= n_final r.
Proof.
  destruct (run_shape pow integrator a b epsilon 4) as [j [Hj [_ Hend]]].
  assert (Hfirst : stops_at pow integrator a b epsilon 4 1 = false).
  { unfold stops_at.
    destruct (runge_estimate pow integrator a b 4 1 <? epsilon)%float; reflexivity. }
  assert (Hj2 : (2 <= j)%nat).
  { destruct (Nat.eq_dec j 1) as [-> | Hne]; [|lia].
    destruct Hend as [[Hs _] | [H21 _]]; [|discriminate].
    rewrite Hfirst in Hs. discriminate. }
  destruct j as [|[|j]]; try lia.
  assert (Hn : 8 <= n_at (S (S j))).
  { pose proof (n_at_mono 2 (S (S j)) ltac:(lia)) as H.
    change (n_at 2) with 8 in H. exact H. }
  destruct Hend as [[_ Hrun] | [_ [_ Hrun]]].
  - eexists. exists (map n_at (seq 3 j)). split; [exact Hrun|].
    cbn [events n_final]. rewrite calls_map_Call. split; [reflexivity | exact Hn].
  - eexists. exists (map n_at (seq 3 j)). split; [exact Hrun|].
    cbn [events n_final]. rewrite calls_app, calls_map_Call.
    cbn [calls]. rewrite app_nil_r. split; [reflexivity | exact Hn].
Qed.

(** X4: for every order other than 4, orders above 4 included, there is no
    such floor: when the first Runge estimate is below [epsilon] the driver
    returns after a single doubling, with the count 4. *)
Theorem other_orders_have_no_floor (p : Z) :
  p <> 4 ->
  (runge_estimate pow integrator a b p 1 <? epsilon)%float = true ->
  integrate_with_runge pow integrator a b epsilon p
  = Some (mkResult (richardson pow integrator a b p 1) 4 [Call 2; Call 4]).
Proof.
  intros Hp Hest.
  assert (Hfirst : stops_at pow integrator a b epsilon p 1 = true).
  { unfold stops_at, min_n_for_reliable_runge. rewrite Hest.
    replace (p =? 4) with false by (symmetry; apply Z.eqb_neq; exact Hp).
    change (n_at 1 <? 1) with false.
    rewrite andb_false_r. reflexivity. }
  destruct (run_shape pow integrator a b epsilon p) as [j [Hj [Hbefore Hend]]].
  assert (Hj1 : j = 1%nat).
  { destruct (Nat.eq_dec j 1) as [E | Hne]; [exact E|].
    rewrite (Hbefore 1%nat) in Hfirst by lia. discriminate. }
  subst j. destruct Hend as [[_ Hrun] | [H21 _]]; [exact Hrun | discriminate].
Qed.

(** X6: a NaN never passes the stopping test.  With a NaN tolerance the
    driver goes through all 21 doublings and returns by the ceiling, with
    both warnings. *)
Theorem nan_tolerance_runs_to_the_ceiling (p : Z) :
  integrate_with_runge pow integrator a b nan p
  = Some (mkResult (richardson pow integrator a b p 21) 4194304
            (map Call (doublings 22)
             ++ [WarnCeiling 4194304;
                 WarnNotConverged 21 nan (runge_estimate pow integrator a b p 21)])).
Proof.
  destruct (run_shape pow integrator a b nan p) as [j [Hj [_ Hend]]].
  destruct Hend as [[Hs _] | [-> [_ Hrun]]]; [|exact Hrun].
  unfold stops_at in Hs. rewrite ltb_nan_r in Hs.
  rewrite !andb_false_r in Hs. discriminate.
Qed.

(** X7: so it is with an integrator that yields NaN at every positive
    count: the run ends at the ceiling and the value returned is NaN. *)
Theorem nan_integrator_runs_to_the_ceiling (p : Z) :
  (forall n, 0 < n -> integrator a b n = nan) ->
  exists r,
    integrate_with_runge pow integrator a b epsilon p = Some r
    /\ value r = nan
    /\ n_final r = 4194304
    /\ calls (events r) = doublings 22
    /\ In (WarnCeiling 4194304) (events r).
Proof.
  intros Hnan.
  assert (HI : forall k, I_at integrator a b k = nan)
    by (intros k; apply Hnan, n_at_pos).
  assert (Hnostop : forall k, stops_at pow integrator a b epsilon p k = false).
  { intros k. unfold stops_at, runge_estimate. rewrite !HI.
    change (PrimFloat.abs (nan - nan)) with nan.
    rewrite div_nan_l, ltb_nan_l, !andb_false_r. reflexivity. }
  destruct (run_shape pow integrator a b epsilon p) as [j [Hj [_ Hend]]].
  destruct Hend as [[Hs _] | [-> [_ Hrun]]];
    [rewrite Hnostop in Hs; discriminate|].
  eexists. split; [exact Hrun|]. cbn [value n_final events].
  split; [|split; [reflexivity|split]].
  - unfold richardson. rewrite !HI. apply add_nan_l.
  - rewrite calls_app, calls_map_Call. cbn [calls]. apply app_nil_r.
  - apply in_or_app. right. left. reflexivity.
Qed.

End DriverOrders.

(** ** The other two fixed formulas *)

(** X8: for [n > 0] the rule of central rectangles returns
    [h * (func(a + 0.5 h) + func(a + 1.5 h) + ... + func(a + (n - 0.5) h))],
    [h = (b - a) / n], the [n] midpoint values summed from [0.0] in index
    order. *)
Theorem central_rectangles_is_midpoint_sum (a b : float) (n : Z) :
  0 < n -> central_rectangles a b n = midpoint_sum a b n.
Proof.
  intros Hn.
  unfold central_rectangles, midpoint_sum, for_range, cells.
  replace (n <=? 0) with false by (symmetry; apply Z.leb_gt; lia).
  cbv zeta.
  rewrite (for_loop_fold _ n (Z.to_nat (n - 0)) 0) by lia.
  replace (n - 0) with n by lia. reflexivity.
Qed.

Lemma central_rectangles_is_midpoint_sum_witness :
  central_rectangles 0 2 38 = midpoint_sum 0 2 38.
Proof. apply (central_rectangles_is_midpoint_sum 0 2 38). lia. Defined.

(** X9: for every count [0 < n < INT_MAX] Simpson's rule returns
    [(h / 3) * (func(a) + func(b) + 4 func(x_1) + 2 func(x_2) + ... + 4 func(x_{m-1}))]
    where [m] is [n] made even ([n + 1] for an odd [n]), [h = (b - a) / m]
    and [x_i = a + i h]: the weighted interior values are added one by one,
    in index order, to [func(a) + func(b)]. *)
Theorem simpsons_rule_is_weighted_sum (a b : float) (n : Z) :
  0 < n -> n < CInt.INT_MAX ->
  simpsons_rule a b n = simpson_sum a b (if Z.odd n then n + 1 else n).
Proof.
  intros Hpos Hmax.
  unfold simpsons_rule.
  replace (n <=? 0) with false by (symmetry; apply Z.leb_gt; lia).
  rewrite (rem_2_odd n) by lia.
  assert (Hm : (if negb ((if Z.odd n then 1 else 0) =? 0) then CInt.add n 1 else n)
               = (if Z.odd n then n + 1 else n)).
  { destruct (Z.odd n); cbn [Z.eqb negb]; [|reflexivity].
    unfold CInt.add. apply wrap_in_range.
    unfold CInt.in_range, CInt.INT_MIN. lia. }
  rewrite Hm. set (m := if Z.odd n then n + 1 else n).
  assert (Hmpos : 0 < m) by (unfold m; destruct (Z.odd n); lia).
  unfold simpson_sum, for_range, interior. cbv zeta.
  rewrite (for_loop_fold _ m (Z.to_nat (m - 1)) 1) by lia.
  change (Z.to_nat 1) with 1%nat.
  f_equal. apply fold_left_ext_in.
  intros acc i Hi. apply in_map_iff in Hi. destruct Hi as [k [<- _]].
  rewrite (rem_2_odd (Z.of_nat k)) by lia.
  unfold simpson_weight. destruct (Z.odd (Z.of_nat k)); reflexivity.
Qed.

Lemma simpsons_rule_is_weighted_sum_witness :
  simpsons_rule 0 2 7 = simpson_sum 0 2 (if Z.odd 7 then 7 + 1 else 7).
Proof.
  apply (simpsons_rule_is_weighted_sum 0 2 7); [lia | unfold CInt.INT_MAX; lia].
Defined.

(** X10: a NaN bound of the interval makes each of the three formulas
    return NaN for every count [n > 0] (for [n <= 0] they return [0.0]
    whatever the bounds are). *)
Theorem nan_bound_gives_nan (a b : float) (n : Z) :
  0 < n -> a = nan \/ b = nan ->
  central_rectangles a b n = nan
  /\ trapezoidal_rule a b n = nan
  /\ simpsons_rule a b n = nan.
Proof.
  intros Hn Hab.
  assert (Hd : (b - a)%float = nan)
    by (destruct Hab as [-> | ->]; [apply sub_nan_r | apply sub_nan_l]).
  unfold central_rectangles, trapezoidal_rule, simpsons_rule.
  replace (n <=? 0) with false by (symmetry; apply Z.leb_gt; lia).
  cbv zeta. rewrite !Hd, !div_nan_l, !mul_nan_l. repeat split.
Qed.

Lemma nan_bound_gives_nan_witness :
  central_rectangles nan 2 5 = nan
  /\ trapezoidal_rule nan 2 5 = nan
  /\ simpsons_rule nan 2 5 = nan.
Proof.
  apply (nan_bound_gives_nan nan 2 5); [lia | left; reflexivity].
Defined.

(** ** The planner, [func_dd] and [main] *)

(** X11: whenever the planner's conversion to [int] is defined, the count
    it yields is at least 1 (and an [int]): the step [(b - a) / n] that
    follows never divides by zero and the formula called with it never
    takes its [n <= 0] exit. *)
Theorem planner_count_is_positive (pow : float -> float -> float)
        (k a b M2 eps : float) (n : Z) :
  n_m2 pow k a b M2 eps = Some n ->
  1 <= n <= CInt.INT_MAX
  /\ central_rectangles a b n = midpoint_sum a b n
  /\ trapezoidal_rule a b n = trapezoid_formula a b n.
Proof.
  unfold n_m2, static_cast_int_ceil.
  destruct (ceil_SF _) as [c|] eqn:Hc; [|discriminate].
  apply ceil_sqrt_nonneg in Hc.
  destruct ((CInt.INT_MIN <=? c) && (c <=? CInt.INT_MAX)) eqn:Hrange; [|discriminate].
  apply andb_prop in Hrange. destruct Hrange as [_ Hmax]. apply Z.leb_le in Hmax.
  intros [= <-].
  assert (Hn : 1 <= (if c =? 0 then 1 else c) <= CInt.INT_MAX).
  { destruct (c =? 0) eqn:H0.
    - unfold CInt.INT_MAX. lia.
    - apply Z.eqb_neq in H0. lia. }
  split; [exact Hn|]. split.
  - unfold central_rectangles, midpoint_sum, for_range, cells.
    replace (_ <=? 0) with false by (symmetry; apply Z.leb_gt; lia).
    cbv zeta. rewrite (for_loop_fold _ _ (Z.to_nat (_ - 0)) 0) by lia.
    rewrite Z.sub_0_r. reflexivity.
  - unfold trapezoidal_rule, trapezoid_formula, for_range, interior, f, func.
    replace (_ <=? 0) with false by (symmetry; apply Z.leb_gt; lia).
    cbv zeta. rewrite (for_loop_fold _ _ (Z.to_nat (_ - 1)) 1) by lia.
    reflexivity.
Qed.

Lemma planner_count_is_positive_witness :
  1 <= 38 <= CInt.INT_MAX
  /\ central_rectangles 0 2 38 = midpoint_sum 0 2 38
  /\ trapezoidal_rule 0 2 38 = trapezoid_formula 0 2 38.
Proof.
  apply (planner_count_is_positive pow_ref 24 0 2 M2_val 0.0001 38).
  vm_compute. reflexivity.
Defined.

(** X12: the constant [M2_val = 0.43156] is not a bound of [|func_dd|] on
    the interval [[0, 2]] of [main]: it is the maximum 0.431563 cut to five
    digits, and [|func_dd(0.296137)|] is above it. *)
Theorem M2_val_is_below_func_dd :
  exists x,
    (0 <=? x)%float = true /\ (x <=? 2)%float = true
    /\ (M2_val <? PrimFloat.abs (func_dd x))%float = true.
Proof.
  exists 0.296137%float. vm_compute. repeat split.
Qed.

(** The driver uses [std::pow] for [pow(2, p)] only. *)
Lemma do_while_pow_ext (pow1 pow2 : float -> float -> float) integrator a b epsilon p :
  pow1 2%float (double_of_int p) = pow2 2%float (double_of_int p) ->
  forall fuel s,
    do_while pow1 integrator a b epsilon p fuel s
    = do_while pow2 integrator a b epsilon p fuel s.
Proof.
  intros Hpow.
  assert (Hbody : forall s, loop_body pow1 integrator a b epsilon p s
                            = loop_body pow2 integrator a b epsilon p s)
    by (intros s; unfold loop_body; rewrite Hpow; reflexivity).
  assert (Hafter : forall s I_2h, after_loop pow1 epsilon p s I_2h
                                  = after_loop pow2 epsilon p s I_2h)
    by (intros s I_2h; unfold after_loop; rewrite Hpow; reflexivity).
  induction fuel as [|fuel IH]; intros s; [reflexivity|].
  cbn [do_while]. rewrite Hbody.
  destruct (loop_body pow2 integrator a b epsilon p s) as [r | s' I_2h | s' I_2h];
    rewrite ?Hafter; try reflexivity.
  rewrite IH. reflexivity.
Qed.

(** X13: what [main] reports, given the values the C library returns for
    the four calls it makes into it ([pow(2, 3) = 8], [pow(2, 2) = 4],
    [pow(2, 4) = 16] and [log(2.0)], the double nearest to [ln 2]): the
    planner counts are 38 and 54, the driver stops at 64 subdivisions for
    trapezoids and 8 for Simpson without a warning, each of the four
    results is within [epsilon = 0.0001] of [exact_value], and
    [all_accurate_flag] stays [true]. *)
Theorem main_reports_all_accurate (pow : float -> float -> float) (log : float -> float) :
  pow 2%float 3%float = 8%float ->
  pow 2%float 2%float = 4%float ->
  pow 2%float 4%float = 16%float ->
  log 2%float = ln2 ->
  exists rep,
    main pow log = Some rep
    /\ rep_n_rect_m2 rep = 38
    /\ rep_n_trap_m2 rep = 54
    /\ n_trap_runge_final rep = 64
    /\ n_simpson_runge_final rep = 8
    /\ cout_warnings rep = []
    /\ cerr rep = []
    /\ all_accurate_flag rep = true
    /\ Forall (fun res => (PrimFloat.abs (res - exact_value rep) <? 0.0001)%float = true)
         [res_central_rect_m2 rep; res_trap_m2 rep; res_trap_runge rep;
          res_simpson_runge rep].
Proof.
  intros Hpow3 Hpow2 Hpow4 Hlog.
  assert (Hmain : main pow log = main pow_ref (fun _ => ln2)).
  { unfold main, n_rect_m2, n_trap_m2, n_m2, integrate_with_runge. cbv zeta.
    change (2 - 0)%float with 2%float.
    rewrite Hpow3, Hlog.
    change (pow_ref 2 3) with 8%float.
    rewrite (do_while_pow_ext pow pow_ref trapezoidal_rule 0 2 0.0001 2)
      by (change (double_of_int 2) with 2%float; rewrite Hpow2; reflexivity).
    rewrite (do_while_pow_ext pow pow_ref simpsons_rule 0 2 0.0001 4)
      by (change (double_of_int 4) with 4%float; rewrite Hpow4; reflexivity).
    reflexivity. }
  rewrite Hmain. vm_compute. eexists. split; [reflexivity|].
  repeat split; repeat constructor.
Qed.

Lemma main_reports_all_accurate_witness :
  exists rep,
    main pow_ref (fun _ => ln2) = Some rep
    /\ rep_n_rect_m2 rep = 38
    /\ rep_n_trap_m2 rep = 54
    /\ n_trap_runge_final rep = 64
    /\ n_simpson_runge_final rep = 8
    /\ cout_warnings rep = []
    /\ cerr rep = []
    /\ all_accurate_flag rep = true
    /\ Forall (fun res => (PrimFloat.abs (res - exact_value rep) <? 0.0001)%float = true)
         [res_central_rect_m2 rep; res_trap_m2 rep; res_trap_runge rep;
          res_simpson_runge rep].
Proof.
  apply (main_reports_all_accurate pow_ref (fun _ => ln2)); reflexivity.
Defined.

(** ** Runs that show the properties of the driver *)

Lemma run_ends_at_first_stop_witness :
  integrate_with_runge pow_ref trapezoidal_rule 0 2 0.0001 2
  = Some (mkResult (richardson pow_ref trapezoidal_rule 0 2 2 5) (n_at 5)
            (map Call (doublings 6))).
Proof.
  apply (run_ends_at_first_stop pow_ref trapezoidal_rule 0 2 0.0001 2 5).
  - lia.
  - intros i Hi.
    assert (Hcases : i = 1%nat \/ i = 2%nat \/ i = 3%nat \/ i = 4%nat) by lia.
    destruct Hcases as [-> | [-> | [-> | ->]]]; vm_compute; reflexivity.
  - vm_compute. reflexivity.
Defined.

Lemma other_orders_have_no_floor_witness :
  integrate_with_runge pow_ref simpsons_rule 0 2 0.0001 5
  = Some (mkResult (richardson pow_ref simpsons_rule 0 2 5 1) 4 [Call 2; Call 4]).
Proof.
  apply (other_orders_have_no_floor pow_ref simpsons_rule 0 2 0.0001 5).
  - lia.
  - vm_compute. reflexivity.
Defined.

Lemma nan_integrator_runs_to_the_ceiling_witness :
  exists r,
    integrate_with_runge pow_ref (fun _ _ _ => nan) 0 2 0.0001 2 = Some r
    /\ value r = nan
    /\ n_final r = 4194304
    /\ calls (events r) = doublings 22
    /\ In (WarnCeiling 4194304) (events r).
Proof.
  apply (nan_integrator_runs_to_the_ceiling pow_ref (fun _ _ _ => nan) 0 2 0.0001 2).
  intros n Hn. reflexivity.
Defined.

(** ** A zero Runge denominator *)

(** Dividing by [0.0] gives an infinity or NaN, which is below nothing. *)
Lemma abs_over_zero_not_below d eps :
  (PrimFloat.abs d / 0 <? eps)%float = false.
Proof.
  rewrite ltb_spec, div_spec, abs_spec.
  change (Prim2SF 0) with (S754_zero false).
  destruct (Prim2SF d) as [[|] | [|] | | [|] m e],
           (Prim2SF eps) as [[|] | [|] | | [|] m' e']; reflexivity.
Qed.

Lemma plus_quotient_by_zero_not_finite x d :
  Prim2SF (x + d / 0)%float = S754_nan
  \/ exists s, Prim2SF (x + d / 0)%float = S754_infinity s.
Proof.
  rewrite add_spec, div_spec.
  change (Prim2SF 0) with (S754_zero false).
  destruct (Prim2SF x) as [[|] | [|] | | [|] m e],
           (Prim2SF d) as [[|] | [|] | | [|] m' e'];
    cbn; first [left; reflexivity | right; eexists; reflexivity].
Qed.

(** X14: with the order [p = 0], for which [pow(2, p) - 1.0] is zero, the
    driver divides by zero without failing: no estimate is ever below
    [epsilon], the run goes through all 21 doublings to the ceiling, and
    the value returned is an infinity or NaN. *)
Theorem zero_denominator_runs_to_the_ceiling
        (pow : float -> float -> float) (integrator : float -> float -> Z -> float)
        (a b epsilon : float) (p : Z) :
  pow 2%float (double_of_int p) = 1%float ->
  exists r,
    integrate_with_runge pow integrator a b epsilon p = Some r
    /\ n_final r = 4194304
    /\ calls (events r) = doublings 22
    /\ In (WarnCeiling 4194304) (events r)
    /\ (Prim2SF (value r) = S754_nan
        \/ exists s, Prim2SF (value r) = S754_infinity s).
Proof.
  intros Hpow.
  assert (Hnostop : forall k, stops_at pow integrator a b epsilon p k = false).
  { intros k. unfold stops_at, runge_estimate. rewrite Hpow.
    change (1 - 1)%float with 0%float.
    rewrite abs_over_zero_not_below, !andb_false_r. reflexivity. }
  destruct (run_shape pow integrator a b epsilon p) as [j [Hj [_ Hend]]].
  destruct Hend as [[Hs _] | [-> [_ Hrun]]];
    [rewrite Hnostop in Hs; discriminate|].
  eexists. split; [exact Hrun|]. cbn [value n_final events].
  split; [reflexivity|]. split; [|split].
  - rewrite calls_app, calls_map_Call. cbn [calls]. apply app_nil_r.
  - apply in_or_app. right. left. reflexivity.
  - unfold richardson. rewrite Hpow. change (1 - 1)%float with 0%float.
    apply plus_quotient_by_zero_not_finite.
Qed.

Lemma zero_denominator_runs_to_the_ceiling_witness :
  exists r,
    integrate_with_runge pow_ref trapezoidal_rule 0 2 0.0001 0 = Some r
    /\ n_final r = 4194304
    /\ calls (events r) = doublings 22
    /\ In (WarnCeiling 4194304) (events r)
    /\ (Prim2SF (value r) = S754_nan
        \/ exists s, Prim2SF (value r) = S754_infinity s).
Proof.
  apply (zero_denominator_runs_to_the_ceiling pow_ref trapezoidal_rule 0 2 0.0001 0).
  reflexivity.
Defined.
